(** * The GitHub-Releases portfolio manager of [update_portfolio.sh]

    A shallow embedding of the second script of [src/update_portfolio.sh]
    (the "GitHub Releases Portfolio Update Script"): the file-name
    classifier [extract_photo_info], the directory scan [scan_portfolio],
    the release step [manage_release], the single-field edit
    [update_photo] and the [setup] / [update] branches of [main].

    Strings are byte strings. The text utilities [sed], [cut] and
    [basename] are modelled on one line of text without a slash: the
    statements about the classifier that depend on it carry the
    hypothesis [file_name], which keeps the name on one line. *)

From Stdlib Require Import String Ascii ZArith QArith.
From stdpp Require Import base option list gmap strings.

(** ** Text utilities used by the script *)

Module Text.

(** [tr '[:lower:]' '[:upper:]'], byte by byte. *)
Definition is_lower (c : ascii) : bool :=
  let n := nat_of_ascii c in Nat.leb 97 n && Nat.leb n 122.

Definition to_upper (c : ascii) : ascii :=
  if is_lower c then ascii_of_nat (nat_of_ascii c - 32) else c.

Fixpoint tr_upper (s : string) : string :=
  match s with
  | EmptyString => EmptyString
  | String c r => String (to_upper c) (tr_upper r)
  end.

Fixpoint has_char (d : ascii) (s : string) : bool :=
  match s with
  | EmptyString => false
  | String c r => Ascii.eqb c d || has_char d r
  end.

Definition is_empty (s : string) : bool :=
  match s with EmptyString => true | _ => false end.

(** The bash builtin [echo "$x"] inside [$( ... )]: an argument made of a
    dash followed by one or more of the letters n, e, E is taken as
    options, and nothing but a newline (stripped by the substitution) is
    printed. *)
Definition echo_letter (c : ascii) : bool :=
  Ascii.eqb c "n" || Ascii.eqb c "e" || Ascii.eqb c "E".

Fixpoint all_chars (p : ascii -> bool) (s : string) : bool :=
  match s with
  | EmptyString => true
  | String c r => p c && all_chars p r
  end.

Definition echo_flag (s : string) : bool :=
  match s with
  | String "-" (String c r) => all_chars echo_letter (String c r)
  | _ => false
  end.

Definition echo (s : string) : string :=
  if echo_flag s then "" else s.

(** [basename "$filename"] on a bare image file name (no slash, ending in
    an image suffix, as [scan_portfolio] passes it): the name itself,
    except that a leading dash makes [basename] read the name as options,
    fail, and print nothing. *)
Definition basename (s : string) : string :=
  match s with
  | String "-" _ => ""
  | _ => s
  end.

(** [sed 's/\.[^.]*$//'] on one line: cut at the dot that has no dot
    after it. ([sed] does so on every line of its input; the model is
    the script's on a name that is one line.) *)
Fixpoint strip_extension (s : string) : string :=
  match s with
  | EmptyString => EmptyString
  | String c r =>
      if Ascii.eqb c "." && negb (has_char "." r) then EmptyString
      else String c (strip_extension r)
  end.

(** [[[ "$s" =~ _([^_]+)$ ]]]: the group [BASH_REMATCH[1]], when the
    pattern matches. *)
Fixpoint rematch_last_segment (s : string) : option string :=
  match s with
  | EmptyString => None
  | String c r =>
      if Ascii.eqb c "_" && negb (is_empty r) && negb (has_char "_" r)
      then Some r
      else rematch_last_segment r
  end.

(** [[[ "$s" =~ (k1|k2|...) ]]]: some keyword occurs in [s]. *)
Fixpoint starts_with (k s : string) : bool :=
  match k, s with
  | EmptyString, _ => true
  | String a k', String b s' => Ascii.eqb a b && starts_with k' s'
  | String _ _, EmptyString => false
  end.

Fixpoint contains (k s : string) : bool :=
  starts_with k s ||
  match s with
  | EmptyString => false
  | String _ r => contains k r
  end.

Definition matches_any (ks : list string) (s : string) : bool :=
  existsb (fun k => contains k s) ks.

(** [cut -d'|' -fN] on one line: the fields of the line; a line without
    the delimiter is printed whole. ([cut] does so on every line of its
    input; the model is the script's on a one-line input.) *)
Fixpoint fields (d : ascii) (s : string) : list string :=
  match s with
  | EmptyString => [EmptyString]
  | String c r =>
      if Ascii.eqb c d then EmptyString :: fields d r
      else match fields d r with
           | f :: fs => String c f :: fs
           | [] => [String c EmptyString]
           end
  end.

Definition cut (d : ascii) (n : nat) (s : string) : string :=
  if has_char d s then nth (n - 1) (fields d s) "" else s.

(** Glob [*suffix] on a directory entry: the name ends with the suffix
    and, as for every [*], does not begin with a dot. *)
Fixpoint ends_with (suffix s : string) : bool :=
  String.eqb suffix s ||
  match s with
  | EmptyString => false
  | String _ r => ends_with suffix r
  end.

Definition glob_star (suffix name : string) : bool :=
  match name with
  | String "." _ => false
  | _ => ends_with suffix name
  end.

End Text.

(** ** Configuration *)

Definition GITHUB_USER : string := "jodiejacobs".
Definition REPO_NAME : string := "jodiejacobs-photography".
Definition RELEASE_TAG : string := "v1.0.0".
Definition BASE_URL : string :=
  "https://github.com/" +:+ GITHUB_USER +:+ "/" +:+ REPO_NAME
  +:+ "/releases/download/" +:+ RELEASE_TAG.

(** ** [extract_photo_info] *)

Definition street_keywords : list string := ["street"; "urban"; "city"].
Definition faces_keywords : list string :=
  ["face"; "portrait"; "person"; "people"].
Definition nature_keywords : list string :=
  ["nature"; "landscape"; "forest"; "mountain"; "ocean"; "tree"].

Definition default_category : string := "street".

(** The local variable [basename] of [extract_photo_info]. *)
Definition photo_basename (filename : string) : string :=
  Text.strip_extension (Text.basename filename).

Definition detect_category (basename : string) : string :=
  if Text.matches_any street_keywords basename then "street"
  else if Text.matches_any faces_keywords basename then "faces"
  else if Text.matches_any nature_keywords basename then "nature"
  else default_category.

Definition extract_title (basename : string) : string :=
  match Text.rematch_last_segment basename with
  | Some seg => Text.tr_upper (Text.echo seg)
  | None => Text.tr_upper (Text.echo basename)
  end.

Definition extract_photo_info (filename : string) : string :=
  let basename := photo_basename filename in
  Text.echo (detect_category basename +:+ "|" +:+ extract_title basename).

(** The two [cut] calls of [scan_portfolio] on the classifier's output. *)
Definition photo_category (filename : string) : string :=
  Text.cut "|" 1 (Text.echo (extract_photo_info filename)).

Definition photo_title (filename : string) : string :=
  Text.cut "|" 2 (Text.echo (extract_photo_info filename)).

(** ** The metadata file and the outside world *)

(** A JSON scalar as [jq] holds it. The script reads and copies numbers
    (and writes the integer ids); it never computes with a coordinate. *)
Inductive json :=
  | JNull
  | JBool (b : bool)
  | JNum (q : Q)
  | JStr (s : string).

(** One object of the array in [photos.json]. *)
Abbreviation photo := (gmap string json).

Record dirent := { d_name : string; d_file : bool }.

(** What one invocation of the script finds around it: the entries of
    [$PORTFOLIO_DIR] in the shell's glob order ([None] when the directory
    is missing), the date [date +%Y-%m-%d] prints during the run, whether
    [gh] is installed and authenticated, and which assets [gh] manages to
    upload. *)
Record env := {
  portfolio : option (list dirent);
  today : string;
  gh_ready : bool;
  upload_ok : string -> bool
}.

(** What persists between invocations: the content of [photos.json]
    ([None] when the file does not exist), the assets of the release
    [$RELEASE_TAG] ([None] when there is no such release), and the assets
    handed to [gh] for upload so far. *)
Record world := {
  photos_json : option (list photo);
  release : option (list string);
  uploads : list string
}.

Definition write_photos (l : list photo) (w : world) : world :=
  {| photos_json := Some l; release := release w; uploads := uploads w |}.

Definition set_release (r : option (list string)) (w : world) : world :=
  {| photos_json := photos_json w; release := r; uploads := uploads w |}.

Definition log_uploads (fs : list string) (w : world) : world :=
  {| photos_json := photos_json w; release := release w;
     uploads := uploads w ++ fs |}.

(** A shell function either returns to its caller or ends the process
    with [exit] (or through [set -e]). *)
Inductive result (A : Type) :=
  | Ret (a : A) (w : world)
  | Exit (code : nat) (w : world).
Arguments Ret {A} a w.
Arguments Exit {A} code w.

Definition sh (A : Type) : Type := world -> result A.

Definition exit {A} (code : nat) : sh A := fun w => Exit code w.
Definition get : sh world := fun w => Ret w w.
Definition modify (f : world -> world) : sh unit := fun w => Ret tt (f w).

#[global] Instance sh_ret : MRet sh := fun A a w => Ret a w.
#[global] Instance sh_bind : MBind sh := fun A B f m w =>
  match m w with
  | Ret a w' => f a w'
  | Exit c w' => Exit c w'
  end.

Definition final {A} (r : result A) : world :=
  match r with Ret _ w => w | Exit _ w => w end.

Definition status {A} (r : result A) : nat :=
  match r with Ret _ _ => 0 | Exit c _ => c end.

(** ** The glob of [scan_portfolio] and [manage_release] *)

Definition image_suffixes : list string :=
  [".jpg"; ".jpeg"; ".png"; ".JPG"; ".JPEG"; ".PNG"].

Definition glob_suffix (es : list dirent) (suffix : string) : list string :=
  d_name <$> filter (fun d => Text.glob_star suffix (d_name d) = true) es.

(** The words of the [for img in ...] loops that pass [[[ -f "$img" ]]],
    as bare file names. A missing directory matches nothing
    ([nullglob]). *)
Definition image_files (e : env) : list string :=
  let es := filter (fun d => d_file d = true) (default [] (portfolio e)) in
  concat (glob_suffix es <$> image_suffixes).

(** ** [scan_portfolio] *)

(** The [jq -n] object. *)
Definition photo_obj (photo_id : Z) (day filename : string) : photo :=
  list_to_map
    [("id", JNum (inject_Z photo_id));
     ("title", JStr (photo_title filename));
     ("category", JStr (photo_category filename));
     ("thumbnail", JStr (BASE_URL +:+ "/" +:+ filename));
     ("full", JStr (BASE_URL +:+ "/" +:+ filename));
     ("lat", JNull);
     ("lng", JNull);
     ("location", JStr "Unknown");
     ("date", JStr day);
     ("filename", JStr filename);
     ("original_file", JStr filename)].

(** The loop body, with the counter [photo_id] and the accumulator
    [photos_array]. Bash counts in 64 bits; no directory listing is long
    enough for the counter to wrap. *)
Fixpoint scan_loop (day : string) (photo_id : Z) (photos_array : list photo)
    (files : list string) : list photo :=
  match files with
  | [] => photos_array
  | filename :: rest =>
      scan_loop day (photo_id + 1)
        (photos_array ++ [photo_obj photo_id day filename]) rest
  end.

Definition scan_portfolio (e : env) : sh unit :=
  match portfolio e with
  | None => exit 1
  | Some _ => modify (write_photos (scan_loop (today e) 1 [] (image_files e)))
  end.

(** ** [manage_release] *)

(** [gh release create "$RELEASE_TAG" ... "${image_files[@]}"]: every
    asset is handed to [gh]; when one upload fails [gh] discards the draft
    release and fails, and [set -e] ends the script. *)
Definition gh_release_create (e : env) (files : list string) : sh unit :=
  modify (log_uploads files) ;;
  if forallb (upload_ok e) files
  then modify (set_release (Some files))
  else exit 1.

Definition manage_release (e : env) (force_recreate : bool) : sh unit :=
  w ← get;
  match release w, force_recreate with
  | Some _, false => mret tt
  | existing, _ =>
      (if existing is Some _ then modify (set_release None) else mret tt) ;;
      let files := image_files e in
      if decide (length files = 0) then exit 1
      else gh_release_create e files
  end.

(** ** [update_photo] *)

Definition filename_is (filename : string) (p : photo) : bool :=
  match p !! "filename" with
  | Some (JStr s) => String.eqb s filename
  | _ => false
  end.

(** The [jq] filter
    [map(if .filename == $filename then .[$field] = $value else . end)]. *)
Definition jq_update (filename field value : string) (l : list photo)
    : list photo :=
  (fun p => if filename_is filename p then <[field := JStr value]> p else p)
  <$> l.

Definition update_photo (filename field value : string) : sh unit :=
  w ← get;
  match photos_json w with
  | None => exit 1
  | Some l => modify (write_photos (jq_update filename field value l))
  end.

(** ** [main] *)

Definition check_dependencies (e : env) : sh unit :=
  if gh_ready e then mret tt else exit 1.

Inductive command :=
  | Setup (arg2 : string)
  | Update (filename field value : string).

Definition main (e : env) (c : command) : sh unit :=
  match c with
  | Setup arg2 =>
      check_dependencies e ;;
      manage_release e (String.eqb arg2 "--force") ;;
      scan_portfolio e
  | Update filename field value =>
      if Text.is_empty filename || Text.is_empty field || Text.is_empty value
      then exit 1
      else update_photo filename field value
  end.

(** ** Running examples *)

Definition no_world : world :=
  {| photos_json := None; release := None; uploads := [] |}.

Definition file (name : string) : dirent :=
  {| d_name := name; d_file := true |}.

Definition listing (names : list string) (day : string) : env :=
  {| portfolio := Some (file <$> names); today := day;
     gh_ready := true; upload_ok := fun _ => true |}.

(** The value a record of the metadata file holds under a key. *)
Definition field_of (w : world) (filename key : string) : option json :=
  l ← photos_json w;
  p ← list_find (filename_is filename) l;
  p.2 !! key.

(** ** Vocabulary of the properties *)

(** The keyword occurs somewhere in the string. *)
Definition occurs (k s : string) : Prop := ∃ p q, s = p +:+ k +:+ q.

Definition mentions (ks : list string) (b : string) : Prop :=
  ∃ k, k ∈ ks ∧ occurs k b.

(** First matching keyword group in the order street, faces, nature;
    the default category when no group matches. *)
Inductive keyword_category (b : string) : string → Prop :=
  | kc_street :
      mentions street_keywords b → keyword_category b "street"
  | kc_faces :
      ¬ mentions street_keywords b → mentions faces_keywords b →
      keyword_category b "faces"
  | kc_nature :
      ¬ mentions street_keywords b → ¬ mentions faces_keywords b →
      mentions nature_keywords b → keyword_category b "nature"
  | kc_default :
      ¬ mentions street_keywords b → ¬ mentions faces_keywords b →
      ¬ mentions nature_keywords b → keyword_category b default_category.


Definition categories : list string := ["street"; "faces"; "nature"].



(** The array [scan_portfolio] writes: one object per image file, in glob
    order, numbered from 1. *)
Definition scanned (e : env) : list photo :=
  imap (λ i f, photo_obj (Z.of_nat i + 1) (today e) f) (image_files e).

Definition has_record (w : world) (filename : string) : Prop :=
  is_Some (field_of w filename "filename").

(** Concrete surroundings and states for the evaluations below. *)
Definition jan15 : string := "2025-01-15".
Definition x_dir : env := listing ["x.jpg"] jan15.
Definition x_world : world := final (scan_portfolio x_dir no_world).

Definition rescan_after_edit (e : env) (filename field value : string)
    (w : world) : world :=
  final (scan_portfolio e (final (update_photo filename field value w))).

(** The claim of the specification: an edited title is still there after
    the next scan. *)
Definition edit_survives_rescan (e : env) (w : world)
    (filename value : string) : Prop :=
  has_record w filename →
  field_of (rescan_after_edit e filename "title" value w) filename "title"
  = Some (JStr value).

Definition b_dir : env := listing ["b.jpg"] jan15.
Definition ab_dir : env := listing ["a.jpg"; "b.jpg"] jan15.
Definition a_dir : env := listing ["a.jpg"] jan15.

(** The claim of the specification: the id a file got at one scan is the
    id it has after the next one. *)
Definition id_stable (e1 e2 : env) (w : world) (filename : string) : Prop :=
  has_record (final (scan_portfolio e1 w)) filename →
  field_of (final (scan_portfolio e2 (final (scan_portfolio e1 w))))
    filename "id"
  = field_of (final (scan_portfolio e1 w)) filename "id".

(** The claim of the specification: a record stays as it is when its file
    is no longer in the directory at the next scan. *)
Definition record_retained (e1 e2 : env) (w : world) (filename : string)
    : Prop :=
  has_record (final (scan_portfolio e1 w)) filename →
  ∀ key,
    field_of (final (scan_portfolio e2 (final (scan_portfolio e1 w))))
      filename key
    = field_of (final (scan_portfolio e1 w)) filename key.

(** The fields the specification calls editable. *)
Definition editable_fields : list string :=
  ["title"; "category"; "location"; "lat"; "lng"].

(** The claim of the specification: an unknown filename or a field that
    is not editable makes the update fail and leaves the file alone. *)
Definition update_rejected (e : env) (w : world)
    (filename field value : string) : Prop :=
  ¬ has_record w filename ∨ field ∉ editable_fields →
  ∃ code, code ≠ 0
          ∧ main e (Update filename field value) w = Exit code w.




Definition jan16 : string := "2025-01-16".

(** The claim of the specification: with the same directory contents the
    second run leaves the metadata file as the first wrote it and uploads
    nothing. *)
Definition rerun_idempotent (e1 e2 : env) (arg2 : string) (w : world)
    : Prop :=
  portfolio e1 = portfolio e2 →
  photos_json (final (main e2 (Setup arg2) (final (main e1 (Setup arg2) w))))
  = photos_json (final (main e1 (Setup arg2) w))
  ∧ uploads (final (main e2 (Setup arg2) (final (main e1 (Setup arg2) w))))
    = uploads (final (main e1 (Setup arg2) w)).

Definition abc_dir_b_fails : env :=
  {| portfolio := Some (file <$> ["a.jpg"; "b.jpg"; "c.jpg"]);
     today := jan15;
     gh_ready := true;
     upload_ok := fun f => negb (String.eqb f "b.jpg") |}.

(** The claim of the specification: the run fails, the file whose upload
    failed has no record, every other image file has one. *)
Definition upload_failure_isolated (e : env) (w : world) (failed : string)
    : Prop :=
  status (main e (Setup "") w) ≠ 0
  ∧ ¬ has_record (final (main e (Setup "") w)) failed
  ∧ ∀ f, f ∈ image_files e → f ≠ failed →
         has_record (final (main e (Setup "") w)) f.

(** ** [add_photo] *)

(** The last component of a path: the name [gh] gives the asset. *)
Fixpoint last_component (path : string) : string :=
  match path with
  | EmptyString => EmptyString
  | String c r =>
      if Text.has_char "/" r then last_component r
      else if Ascii.eqb c "/" then r else path
  end.

(** [gh release upload "$RELEASE_TAG" "$image_path"]: the file is handed
    to [gh]; the command fails when there is no release, when the release
    already has an asset of that name (no [--clobber]) or when the upload
    fails, and [set -e] then ends the script. *)
Definition gh_release_upload (e : env) (image_path : string) : sh unit :=
  let asset := last_component image_path in
  modify (log_uploads [asset]) ;;
  w ← get;
  match release w with
  | None => exit 1
  | Some assets =>
      if upload_ok e asset && negb (bool_decide (asset ∈ assets))
      then modify (set_release (Some (assets ++ [asset])))
      else exit 1
  end.

(** [is_file] is the outcome of [[[ -f "$image_path" ]]]. *)
Definition add_photo (e : env) (is_file : string → bool)
    (image_path : string) : sh unit :=
  if is_file image_path
  then gh_release_upload e image_path ;; scan_portfolio e
  else exit 1.

(** A name the line-oriented tools of the classifier read as one bare
    file name: one line, no slash. *)
Definition newline : ascii := ascii_of_nat 10.

Definition file_name (s : string) : bool :=
  negb (Text.has_char newline s) && negb (Text.has_char "/" s).


(** No lower-case letter. *)
Definition no_lower (s : string) : bool :=
  Text.all_chars (λ c, negb (Text.is_lower c)) s.

(** ** Evaluations *)

Example classify_street_002_sunset :
  extract_photo_info "street_002_sunset.jpg" = "street|SUNSET".
Proof. reflexivity. Qed.

Example classify_forest_walk :
  (photo_category "forest_walk.png", photo_title "forest_walk.png")
  = ("nature", "WALK").
Proof. reflexivity. Qed.

Example classify_readme_dscf :
  (photo_category "street_001_dscf2561.jpg",
   photo_title "street_001_dscf2561.jpg") = ("street", "DSCF2561").
Proof. reflexivity. Qed.

Example setup_then_title :
  field_of (final (main (listing ["x.jpg"] "2025-01-15") (Setup "") no_world))
    "x.jpg" "title" = Some (JStr "X").
Proof. vm_compute. reflexivity. Qed.

Example glob_order :
  image_files
    (listing [".hidden.jpg"; "a.png"; "b.jpg"; "c.JPG"; "notes.txt"] jan15)
  = ["b.jpg"; "a.png"; "c.JPG"].
Proof. reflexivity. Qed.

Example title_with_echo_option :
  (photo_category "tree_-n.jpg", photo_title "tree_-n.jpg") = ("nature", "").
Proof. reflexivity. Qed.

(** ** Facts about the text utilities *)

Section TextFacts.
Import Text.

Lemma app_empty s : "" +:+ s = s.
Proof. reflexivity. Qed.

Lemma app_String c s t : String c s +:+ t = String c (s +:+ t).
Proof. reflexivity. Qed.

Ltac push_app := rewrite ?app_String, ?app_empty.




Lemma has_char_app d s t : has_char d (s +:+ t) = has_char d s || has_char d t.
Proof.
  induction s as [|c s IH]; simpl; [done |].
  by rewrite IH, orb_assoc.
Qed.

Lemma strip_extension_app pre ext :
  has_char "." ext = false →
  strip_extension (pre +:+ String "." ext) = pre.
Proof.
  intros Hext. induction pre as [|c pre IH]; push_app; cbn.
  - by rewrite Hext.
  - rewrite IH. rewrite has_char_app. cbn.
    by rewrite orb_true_r, andb_false_r.
Qed.


Lemma fields_no_delim d s : has_char d s = false → fields d s = [s].
Proof.
  induction s as [|c s IH]; simpl; [done |].
  intros [Hc Hs]%orb_false_iff. rewrite Hc, IH; done.
Qed.

Lemma fields_app d s t :
  has_char d s = false →
  fields d (s +:+ String d t) = s :: fields d t.
Proof.
  induction s as [|c s IH]; simpl.
  - intros _. by rewrite Ascii.eqb_refl.
  - intros [Hc Hs]%orb_false_iff. rewrite Hc, IH; done.
Qed.

Lemma cut_first d s t :
  has_char d s = false → cut d 1 (s +:+ String d t) = s.
Proof.
  intros Hs. unfold cut. rewrite has_char_app. simpl.
  rewrite Ascii.eqb_refl, orb_true_r, fields_app; done.
Qed.

Lemma cut_second d s t :
  has_char d s = false → has_char d t = false →
  cut d 2 (s +:+ String d t) = t.
Proof.
  intros Hs Ht. unfold cut. rewrite has_char_app. simpl.
  rewrite Ascii.eqb_refl, orb_true_r, fields_app, fields_no_delim; done.
Qed.

End TextFacts.

(** ** The classifier *)

Lemma detect_category_cases b :
  detect_category b = "street" ∨ detect_category b = "faces"
  ∨ detect_category b = "nature".
Proof.
  unfold detect_category, default_category.
  repeat case_match; auto.
Qed.

Lemma echo_info c t :
  c = "street" ∨ c = "faces" ∨ c = "nature" →
  Text.echo (c +:+ String "|" t) = c +:+ String "|" t.
Proof. intros [-> | [-> | ->]]; reflexivity. Qed.

Lemma extract_photo_info_shape filename :
  Text.echo (extract_photo_info filename)
  = detect_category (photo_basename filename)
    +:+ String "|" (extract_title (photo_basename filename)).
Proof.
  unfold extract_photo_info. cbv zeta.
  change ("|" +:+ ?t) with (String "|" t).
  rewrite !echo_info by apply detect_category_cases. done.
Qed.

Lemma category_no_bar b : Text.has_char "|" (detect_category b) = false.
Proof. by destruct (detect_category_cases b) as [-> | [-> | ->]]. Qed.

Lemma photo_category_detect filename :
  photo_category filename = detect_category (photo_basename filename).
Proof.
  unfold photo_category. rewrite extract_photo_info_shape.
  apply cut_first, category_no_bar.
Qed.

Lemma photo_title_extract filename :
  Text.has_char "|" (extract_title (photo_basename filename)) = false →
  photo_title filename = extract_title (photo_basename filename).
Proof.
  intros Hbar. unfold photo_title. rewrite extract_photo_info_shape.
  by apply cut_second; [apply category_no_bar |].
Qed.

(** *** Keyword classification, as the specification words it *)




(** The relation determines the category. *)
Lemma keyword_category_functional b c1 c2 :
  keyword_category b c1 → keyword_category b c2 → c1 = c2.
Proof. intros H1 H2. destruct H1; destruct H2; done. Qed.

Lemma basename_dash s :
  Text.basename s = if Text.starts_with "-" s then "" else s.
Proof.
  destruct s as [|c s]; [done |].
  destruct c as [[] [] [] [] [] [] [] []]; reflexivity.
Qed.




(** *** Structured names [category_number_title.ext] *)

Lemma to_upper_bar c : Ascii.eqb (Text.to_upper c) "|" = Ascii.eqb c "|".
Proof. destruct c as [[] [] [] [] [] [] [] []]; reflexivity. Qed.

Lemma has_bar_tr_upper s :
  Text.has_char "|" (Text.tr_upper s) = Text.has_char "|" s.
Proof.
  induction s as [|c s IH]; simpl; [done |].
  by rewrite to_upper_bar, IH.
Qed.







(** ** The scan *)

Lemma scan_loop_spec day n acc files :
  scan_loop day n acc files
  = acc ++ imap (λ i f, photo_obj (n + Z.of_nat i) day f) files.
Proof.
  revert n acc; induction files as [|f files IH]; intros n acc; simpl.
  - by rewrite app_nil_r.
  - rewrite IH, <- app_assoc. simpl. rewrite Z.add_0_r. do 2 f_equal.
    apply imap_ext. intros i x _. simpl. f_equal. lia.
Qed.

Lemma scan_portfolio_ok e w :
  is_Some (portfolio e) →
  scan_portfolio e w = Ret tt (write_photos (scanned e) w).
Proof.
  intros [es Hes]. unfold scan_portfolio, scanned. rewrite Hes.
  unfold modify. do 2 f_equal. rewrite scan_loop_spec. simpl.
  apply imap_ext. intros i x _. simpl. f_equal. lia.
Qed.

Lemma scan_portfolio_missing e w :
  portfolio e = None → scan_portfolio e w = Exit 1 w.
Proof. intros He. unfold scan_portfolio. by rewrite He. Qed.

Lemma scanned_lookup e i p :
  scanned e !! i = Some p ↔
  ∃ f, image_files e !! i = Some f
       ∧ p = photo_obj (Z.of_nat i + 1) (today e) f.
Proof.
  unfold scanned. rewrite list_lookup_imap.
  destruct (image_files e !! i) as [f|]; simpl; split.
  - intros [= <-]. eauto.
  - by intros (f' & [= <-] & ->).
  - done.
  - by intros (f' & ? & _).
Qed.

Lemma photo_obj_field n day f :
  let p := photo_obj n day f in
  p !! "id" = Some (JNum (inject_Z n))
  ∧ p !! "title" = Some (JStr (photo_title f))
  ∧ p !! "category" = Some (JStr (photo_category f))
  ∧ p !! "location" = Some (JStr "Unknown")
  ∧ p !! "lat" = Some JNull
  ∧ p !! "lng" = Some JNull
  ∧ p !! "date" = Some (JStr day)
  ∧ p !! "filename" = Some (JStr f).
Proof. repeat split. Qed.

Lemma filename_is_spec filename (p : photo) :
  filename_is filename p = true ↔ p !! "filename" = Some (JStr filename).
Proof.
  unfold filename_is.
  destruct (p !! "filename") as [[| | |s]|]; try (split; done).
  rewrite String.eqb_eq. naive_solver.
Qed.

Lemma filename_is_photo_obj filename n day f :
  filename_is filename (photo_obj n day f) = String.eqb f filename.
Proof. reflexivity. Qed.

(** The record the scan holds for an image file. *)
Lemma scanned_find e filename :
  filename ∈ image_files e →
  ∃ i n, list_find (filename_is filename) (scanned e)
         = Some (i, photo_obj n (today e) filename).
Proof.
  intros (i & Hi)%list_elem_of_lookup.
  destruct (list_find (filename_is filename) (scanned e)) as [[j p]|] eqn:Hf.
  - apply list_find_Some in Hf as (Hj & Hp & _).
    apply scanned_lookup in Hj as (f & _ & ->).
    rewrite filename_is_photo_obj in Hp.
    apply Is_true_true, String.eqb_eq in Hp as ->. eauto.
  - exfalso. rewrite list_find_None, Forall_forall in Hf.
    apply (Hf (photo_obj (Z.of_nat i + 1) (today e) filename)).
    + apply list_elem_of_lookup. exists i. apply scanned_lookup. eauto.
    + rewrite filename_is_photo_obj. by rewrite String.eqb_refl.
Qed.


Lemma field_of_scanned e w filename key :
  filename ∈ image_files e →
  ∃ n, field_of (write_photos (scanned e) w) filename key
       = photo_obj n (today e) filename !! key.
Proof.
  intros Hin. destruct (scanned_find e filename Hin) as (i & n & Hf).
  exists n. unfold field_of. simpl. by rewrite Hf.
Qed.

Lemma has_record_scanned e w filename :
  has_record (write_photos (scanned e) w) filename ↔ filename ∈ image_files e.
Proof.
  split.
  - intros [v Hv]. unfold field_of in Hv. simpl in Hv.
    destruct (list_find (filename_is filename) (scanned e))
      as [[i p]|] eqn:Hf; [| done].
    apply list_find_Some in Hf as (Hi & Hp & _).
    apply scanned_lookup in Hi as (f & Hi & ->).
    rewrite filename_is_photo_obj in Hp.
    apply Is_true_true, String.eqb_eq in Hp as ->.
    apply list_elem_of_lookup. eauto.
  - intros Hin. destruct (field_of_scanned e w filename "filename" Hin)
      as [n Hn]. unfold has_record. rewrite Hn. by eexists.
Qed.

(** ** C1: manual edits and re-scans *)

(** C1 fails: after [update x.jpg title Foo] the next scan shows the
    title derived from the file name again. *)
Lemma title_edit_lost_on_rescan :
  ¬ edit_survives_rescan x_dir x_world "x.jpg" "Foo"
  ∧ field_of (rescan_after_edit x_dir "x.jpg" "title" "Foo" x_world)
      "x.jpg" "title" = Some (JStr "X").
Proof.
  split; [| vm_compute; reflexivity].
  intros H.
  assert (has_record x_world "x.jpg") as Hr
    by (eexists; vm_compute; reflexivity).
  specialize (H Hr). vm_compute in H. discriminate.
Qed.

(** C1, as the code has it. [scan_portfolio] regenerates the metadata
    file from the directory listing alone: whatever was edited before,
    the scan writes the same array, and the record of an image file shows
    the inferred title and category, the location ["Unknown"] and null
    coordinates. *)
Theorem rescan_rederives_fields e w filename field value :
  is_Some (portfolio e) → filename ∈ image_files e →
  photos_json (rescan_after_edit e filename field value w)
  = photos_json (final (scan_portfolio e w))
  ∧ field_of (rescan_after_edit e filename field value w) filename "title"
    = Some (JStr (photo_title filename))
  ∧ field_of (rescan_after_edit e filename field value w) filename "category"
    = Some (JStr (photo_category filename))
  ∧ field_of (rescan_after_edit e filename field value w) filename "location"
    = Some (JStr "Unknown")
  ∧ field_of (rescan_after_edit e filename field value w) filename "lat"
    = Some JNull
  ∧ field_of (rescan_after_edit e filename field value w) filename "lng"
    = Some JNull.
Proof.
  intros He Hin. unfold rescan_after_edit.
  rewrite !scan_portfolio_ok by done. simpl.
  split; [done |].
  repeat split;
    match goal with
    | |- field_of (write_photos _ ?w0) _ ?key = _ =>
        destruct (field_of_scanned e w0 filename key Hin) as [n ->]
    end; reflexivity.
Qed.

Lemma rescan_rederives_fields_witness :
  photos_json (rescan_after_edit x_dir "x.jpg" "title" "Foo" x_world)
  = photos_json (final (scan_portfolio x_dir x_world))
  ∧ field_of (rescan_after_edit x_dir "x.jpg" "title" "Foo" x_world)
      "x.jpg" "title" = Some (JStr (photo_title "x.jpg"))
  ∧ field_of (rescan_after_edit x_dir "x.jpg" "title" "Foo" x_world)
      "x.jpg" "category" = Some (JStr (photo_category "x.jpg"))
  ∧ field_of (rescan_after_edit x_dir "x.jpg" "title" "Foo" x_world)
      "x.jpg" "location" = Some (JStr "Unknown")
  ∧ field_of (rescan_after_edit x_dir "x.jpg" "title" "Foo" x_world)
      "x.jpg" "lat" = Some JNull
  ∧ field_of (rescan_after_edit x_dir "x.jpg" "title" "Foo" x_world)
      "x.jpg" "lng" = Some JNull.
Proof.
  apply (rescan_rederives_fields x_dir x_world "x.jpg" "title" "Foo").
  - by eexists.
  - vm_compute. apply list_elem_of_here.
Defined.

(** ** C3: record ids *)

(** C3 fails: when [a.jpg] is added next to [b.jpg], the next scan gives
    [b.jpg] the id 2 and hands its former id 1 to [a.jpg]. *)
Lemma id_shifts_when_file_added :
  ¬ id_stable b_dir ab_dir no_world "b.jpg"
  ∧ field_of (final (scan_portfolio b_dir no_world)) "b.jpg" "id"
    = Some (JNum (inject_Z 1))
  ∧ field_of (final (scan_portfolio ab_dir (final (scan_portfolio b_dir no_world))))
      "a.jpg" "id" = Some (JNum (inject_Z 1)).
Proof.
  split; [| split; vm_compute; reflexivity].
  intros H.
  assert (has_record (final (scan_portfolio b_dir no_world)) "b.jpg") as Hr
    by (eexists; vm_compute; reflexivity).
  specialize (H Hr). vm_compute in H. discriminate.
Qed.

Lemma jq_update_lookup filename field value (l : list photo) i :
  jq_update filename field value l !! i
  = (λ p, if filename_is filename p then <[field := JStr value]> p else p)
    <$> l !! i.
Proof. unfold jq_update. apply list_lookup_fmap. Qed.

(** C3, as the code has it. Ids are positions: every scan numbers the
    image files 1, 2, ... in glob order, starting again from 1, whatever
    the metadata file held; an edit of a field other than [id] leaves
    every id as it is. *)
Theorem scan_ids_positional e w filename field value (l0 : list photo) :
  is_Some (portfolio e) → field ≠ "id" →
  (∃ l, photos_json (final (scan_portfolio e w)) = Some l
        ∧ length l = length (image_files e)
        ∧ ∀ i f, image_files e !! i = Some f →
            ∃ p, l !! i = Some p
                 ∧ p !! "filename" = Some (JStr f)
                 ∧ p !! "id" = Some (JNum (inject_Z (Z.of_nat i + 1))))
  ∧ (∀ i p, l0 !! i = Some p →
       ∃ p', jq_update filename field value l0 !! i = Some p'
             ∧ p' !! "id" = p !! "id").
Proof.
  intros He Hfield. split.
  - exists (scanned e). rewrite scan_portfolio_ok by done. simpl.
    split; [done |]. split; [apply length_imap |].
    intros i f Hi. exists (photo_obj (Z.of_nat i + 1) (today e) f).
    split; [apply scanned_lookup; eauto | done].
  - intros i p Hp. rewrite jq_update_lookup, Hp. simpl.
    eexists; split; [done |].
    destruct (filename_is filename p); [| done].
    by apply lookup_insert_ne.
Qed.

Lemma scan_ids_positional_witness :
  (∃ l, photos_json (final (scan_portfolio ab_dir no_world)) = Some l
        ∧ length l = length (image_files ab_dir)
        ∧ ∀ i f, image_files ab_dir !! i = Some f →
            ∃ p, l !! i = Some p
                 ∧ p !! "filename" = Some (JStr f)
                 ∧ p !! "id" = Some (JNum (inject_Z (Z.of_nat i + 1))))
  ∧ (∀ i p, scanned ab_dir !! i = Some p →
       ∃ p', jq_update "b.jpg" "title" "Foo" (scanned ab_dir) !! i = Some p'
             ∧ p' !! "id" = p !! "id").
Proof.
  apply (scan_ids_positional ab_dir no_world "b.jpg" "title" "Foo"
           (scanned ab_dir)).
  - by eexists.
  - discriminate.
Defined.

(** ** C4: files that left the directory *)

(** C4 fails: once [b.jpg] is removed from the directory, the next scan
    writes a metadata file without a record for it. *)
Lemma record_dropped_with_file :
  ¬ record_retained ab_dir a_dir no_world "b.jpg"
  ∧ ¬ has_record
        (final (scan_portfolio a_dir (final (scan_portfolio ab_dir no_world))))
        "b.jpg".
Proof.
  split.
  - intros H.
    assert (has_record (final (scan_portfolio ab_dir no_world)) "b.jpg")
      as Hr by (eexists; vm_compute; reflexivity).
    specialize (H Hr "filename"). vm_compute in H. discriminate.
  - intros [v Hv]. vm_compute in Hv. discriminate.
Qed.

(** C4, as the code has it. The metadata file a scan writes holds exactly
    the image files now in the directory, one record each in glob order;
    a file name that is not in the listing has no record afterwards,
    whatever the file held before. *)
Theorem scan_lists_current_files e w :
  is_Some (portfolio e) →
  ∃ l, photos_json (final (scan_portfolio e w)) = Some l
       ∧ (λ p : photo, p !! "filename") <$> l
         = (λ f, Some (JStr f)) <$> image_files e
       ∧ ∀ filename,
           has_record (final (scan_portfolio e w)) filename
           ↔ filename ∈ image_files e.
Proof.
  intros He. exists (scanned e). rewrite scan_portfolio_ok by done. simpl.
  split; [done |]. split.
  - unfold scanned. rewrite fmap_imap.
    rewrite <- (imap_const (λ f, Some (JStr f))). by apply imap_ext.
  - intros filename. apply has_record_scanned.
Qed.

Lemma scan_lists_current_files_witness :
  ∃ l, photos_json (final (scan_portfolio a_dir x_world)) = Some l
       ∧ (λ p : photo, p !! "filename") <$> l
         = (λ f, Some (JStr f)) <$> image_files a_dir
       ∧ ∀ filename,
           has_record (final (scan_portfolio a_dir x_world)) filename
           ↔ filename ∈ image_files a_dir.
Proof. apply (scan_lists_current_files a_dir x_world). by eexists. Defined.

(** ** C10 and C7: [update_photo] *)

Lemma update_photo_ok filename field value w l :
  photos_json w = Some l →
  update_photo filename field value w
  = Ret tt (write_photos (jq_update filename field value l) w).
Proof.
  intros Hl. unfold update_photo, mbind, sh_bind, get. simpl. by rewrite Hl.
Qed.

Lemma update_photo_missing filename field value w :
  photos_json w = None → update_photo filename field value w = Exit 1 w.
Proof.
  intros Hl. unfold update_photo, mbind, sh_bind, get. simpl. by rewrite Hl.
Qed.

(** C10. [update_photo] rewrites the metadata file record by record: a
    record whose filename is not the given one is left as it is, and a
    record with the given filename gets the given value under the named
    field and keeps the value of every other field; the length and order
    of the array, the release and the upload log are untouched. *)
Theorem update_photo_frame filename field value w l :
  photos_json w = Some l →
  ∃ l',
    update_photo filename field value w = Ret tt (write_photos l' w)
    ∧ length l' = length l
    ∧ ∀ i p, l !! i = Some p →
        ∃ p', l' !! i = Some p'
              ∧ (p !! "filename" ≠ Some (JStr filename) → p' = p)
              ∧ (p !! "filename" = Some (JStr filename) →
                 p' !! field = Some (JStr value)
                 ∧ ∀ key, key ≠ field → p' !! key = p !! key).
Proof.
  intros Hl. exists (jq_update filename field value l).
  split; [by apply update_photo_ok |].
  split; [apply length_fmap |].
  intros i p Hp. rewrite jq_update_lookup, Hp. simpl.
  eexists; split; [done |].
  destruct (filename_is filename p) eqn:Hf.
  - apply filename_is_spec in Hf. split; [done |]. intros _. split.
    + apply lookup_insert_eq.
    + intros key Hkey. by apply lookup_insert_ne.
  - split; [done |]. intros Heq%filename_is_spec. congruence.
Qed.

Lemma update_photo_frame_witness :
  ∃ l',
    update_photo "b.jpg" "title" "Foo" (write_photos (scanned ab_dir) no_world)
    = Ret tt (write_photos l' (write_photos (scanned ab_dir) no_world))
    ∧ length l' = length (scanned ab_dir)
    ∧ ∀ i p, scanned ab_dir !! i = Some p →
        ∃ p', l' !! i = Some p'
              ∧ (p !! "filename" ≠ Some (JStr "b.jpg") → p' = p)
              ∧ (p !! "filename" = Some (JStr "b.jpg") →
                 p' !! "title" = Some (JStr "Foo")
                 ∧ ∀ key, key ≠ "title" → p' !! key = p !! key).
Proof.
  apply (update_photo_frame "b.jpg" "title" "Foo"
           (write_photos (scanned ab_dir) no_world) (scanned ab_dir)).
  reflexivity.
Defined.

(** C7 fails: an update naming no record, and an update of a field that
    is not editable, both end with status 0; the second one adds the key
    to the record. *)
Lemma update_never_rejects :
  ¬ update_rejected x_dir x_world "nope.jpg" "title" "Foo"
  ∧ ¬ update_rejected x_dir x_world "x.jpg" "bogus" "v"
  ∧ status (main x_dir (Update "nope.jpg" "title" "Foo") x_world) = 0
  ∧ status (main x_dir (Update "x.jpg" "bogus" "v") x_world) = 0
  ∧ field_of (final (main x_dir (Update "x.jpg" "bogus" "v") x_world))
      "x.jpg" "bogus" = Some (JStr "v").
Proof.
  split; [| split; [| repeat split; vm_compute; reflexivity]].
  - intros H. destruct H as (code & Hcode & Hrun).
    + left. intros [v Hv]. vm_compute in Hv. discriminate.
    + vm_compute in Hrun. discriminate.
  - intros H. destruct H as (code & Hcode & Hrun).
    + right. intros Hin%list_elem_of_In. simpl in Hin.
      intuition discriminate.
    + vm_compute in Hrun. discriminate.
Qed.

Lemma jq_update_no_match filename field value (l : list photo) :
  (∀ p, p ∈ l → p !! "filename" ≠ Some (JStr filename)) →
  jq_update filename field value l = l.
Proof.
  intros Hno. unfold jq_update. rewrite <- (list_fmap_id l) at 2.
  apply list_fmap_ext. intros i p Hp. simpl.
  destruct (filename_is filename p) eqn:Hf; [| done].
  apply filename_is_spec in Hf. exfalso.
  apply (Hno p); [| done]. apply list_elem_of_lookup. eauto.
Qed.

(** C7, as the code has it. [update_photo] validates nothing: when the
    metadata file exists it returns normally for every filename, field
    and value; with a filename that no record carries the array is
    written back unchanged, and with any field name, editable or not,
    every record carrying the filename gets the value under that key.
    The update fails, with status 1 and nothing written, exactly when
    the metadata file is missing. *)
Theorem update_photo_unvalidated filename field value w :
  (photos_json w = None →
   update_photo filename field value w = Exit 1 w)
  ∧ (∀ l, photos_json w = Some l →
       update_photo filename field value w
       = Ret tt (write_photos (jq_update filename field value l) w)
       ∧ ((∀ p, p ∈ l → p !! "filename" ≠ Some (JStr filename)) →
          jq_update filename field value l = l)
       ∧ (∀ i p, l !! i = Some p →
            p !! "filename" = Some (JStr filename) →
            ∃ p', jq_update filename field value l !! i = Some p'
                  ∧ p' !! field = Some (JStr value))).
Proof.
  split; [apply update_photo_missing |].
  intros l Hl. split; [by apply update_photo_ok |].
  split; [apply jq_update_no_match |].
  intros i p Hp Hf. rewrite jq_update_lookup, Hp. simpl.
  apply filename_is_spec in Hf. rewrite Hf.
  eexists; split; [done | apply lookup_insert_eq].
Qed.

(** ** C9: coordinates *)





(** ** C2: running [setup] twice *)

Ltac unfold_sh :=
  unfold main, check_dependencies, manage_release, gh_release_create,
    scan_portfolio, update_photo, mbind, sh_bind, mret, sh_ret, get,
    modify, exit in *.

(** C2 fails in two ways: [setup --force] run twice uploads every image
    a second time, and a second run on the next day writes new dates
    into the metadata file. *)
Lemma rerun_not_idempotent :
  ¬ rerun_idempotent x_dir x_dir "--force" no_world
  ∧ ¬ rerun_idempotent x_dir (listing ["x.jpg"] jan16) "" no_world.
Proof.
  split; intros H; specialize (H eq_refl); destruct H as [Hfile Hup].
  - vm_compute in Hup. discriminate.
  - vm_compute in Hfile. discriminate.
Qed.

(** C2, as the code has it. When [setup] without [--force] has run to
    its end, running it again in the same surroundings - same directory
    listing, same date - ends in the very same state: the metadata file
    is the one the first run wrote and nothing more is uploaded; the
    same holds for a further [scan_portfolio]. *)
Theorem setup_rerun_same_day e arg2 w w1 :
  String.eqb arg2 "--force" = false →
  main e (Setup arg2) w = Ret tt w1 →
  main e (Setup arg2) w1 = Ret tt w1 ∧ scan_portfolio e w1 = Ret tt w1.
Proof.
  intros Hforce Hrun. unfold_sh. rewrite Hforce in *.
  destruct (gh_ready e); [| done].
  destruct (portfolio e) as [es|] eqn:Hes.
  - destruct (release w) as [r|] eqn:Hr.
    + injection Hrun as <-. simpl. by rewrite Hr.
    + destruct (decide (length (image_files e) = 0)); [done |].
      destruct (forallb (upload_ok e) (image_files e)); [| done].
      injection Hrun as <-. done.
  - destruct (release w) as [r|] eqn:Hr; [done |].
    destruct (decide (length (image_files e) = 0)); [done |].
    by destruct (forallb (upload_ok e) (image_files e)).
Qed.

Lemma setup_rerun_same_day_witness :
  main x_dir (Setup "") (final (main x_dir (Setup "") no_world))
  = Ret tt (final (main x_dir (Setup "") no_world))
  ∧ scan_portfolio x_dir (final (main x_dir (Setup "") no_world))
    = Ret tt (final (main x_dir (Setup "") no_world)).
Proof.
  apply (setup_rerun_same_day x_dir "" no_world
           (final (main x_dir (Setup "") no_world)));
    reflexivity.
Defined.

(** ** C8: a failing upload *)

(** C8 fails: when the upload of [b.jpg] fails, [setup] ends with
    status 1 before any metadata file is written; [a.jpg] and [c.jpg]
    have no record. *)
Lemma failed_upload_writes_nothing :
  ¬ upload_failure_isolated abc_dir_b_fails no_world "b.jpg"
  ∧ status (main abc_dir_b_fails (Setup "") no_world) = 1
  ∧ photos_json (final (main abc_dir_b_fails (Setup "") no_world)) = None.
Proof.
  split; [| split; vm_compute; reflexivity].
  intros (_ & _ & H).
  destruct (H "a.jpg") as [v Hv].
  - vm_compute. apply list_elem_of_here.
  - discriminate.
  - vm_compute in Hv. discriminate.
Qed.

(** C8, as the code has it. All images go to [gh] in one command; when
    the release is to be created (there is none, or [--force] is given)
    and the upload of one image fails, [setup] ends there with status 1:
    [scan_portfolio] does not run and the metadata file stays as it
    was, for the failed file and for all the others. *)
Theorem failed_upload_aborts_setup e arg2 w f :
  gh_ready e = true → release w = None ∨ arg2 = "--force" →
  f ∈ image_files e → upload_ok e f = false →
  ∃ w', main e (Setup arg2) w = Exit 1 w'
        ∧ photos_json w' = photos_json w
        ∧ uploads w' = uploads w ++ image_files e.
Proof.
  intros Hgh Hcreate Hin Hfail. unfold_sh. rewrite Hgh.
  assert (forallb (upload_ok e) (image_files e) = false) as Hall.
  { apply not_true_is_false. intros Hall.
    rewrite forallb_forall in Hall.
    apply list_elem_of_In, Hall in Hin. congruence. }
  assert (length (image_files e) ≠ 0) as Hlen.
  { destruct (image_files e); [by apply elem_of_nil in Hin | done]. }
  destruct Hcreate as [Hr | ->].
  - rewrite Hr. destruct (String.eqb arg2 "--force");
      (destruct (decide _); [done |]); rewrite Hall; by eexists.
  - simpl. destruct (release w);
      (destruct (decide _); [done |]); rewrite Hall; by eexists.
Qed.

Lemma failed_upload_aborts_setup_witness :
  ∃ w', main abc_dir_b_fails (Setup "") no_world = Exit 1 w'
        ∧ photos_json w' = photos_json no_world
        ∧ uploads w' = uploads no_world ++ image_files abc_dir_b_fails.
Proof.
  apply (failed_upload_aborts_setup abc_dir_b_fails "" no_world "b.jpg").
  - reflexivity.
  - left. reflexivity.
  - vm_compute. apply list_elem_of_further, list_elem_of_here.
  - reflexivity.
Defined.

(** ** Further properties of the classifier *)

Lemma photo_basename_ext pre ext :
  Text.has_char "." ext = false →
  photo_basename (pre +:+ String "." ext)
  = if Text.starts_with "-" pre then "" else pre.
Proof.
  intros Hext. unfold photo_basename. rewrite basename_dash.
  destruct pre as [|c pre].
  - rewrite app_empty. cbn. by rewrite Hext.
  - rewrite app_String. cbn [Text.starts_with].
    rewrite andb_true_r.
    destruct (Ascii.eqb "-" c); [done |].
    rewrite <- app_String. by apply strip_extension_app.
Qed.

Lemma fields_head d t :
  ∃ f fs, Text.fields d t = f :: fs
          ∧ Text.has_char d f = false
          ∧ ∀ P, Text.all_chars P t = true → Text.all_chars P f = true.
Proof.
  induction t as [|c t (f & fs & Hf & Hd & HP)]; simpl.
  - by exists "", [].
  - destruct (Ascii.eqb c d) eqn:Hc.
    + by exists "", (Text.fields d t).
    + rewrite Hf. exists (String c f), fs. split; [done |]. split.
      * simpl. by rewrite Hc.
      * intros P [Hpc Hpt]%andb_true_iff. simpl. by rewrite Hpc, HP.
Qed.

Lemma to_upper_not_lower c : Text.is_lower (Text.to_upper c) = false.
Proof. destruct c as [[] [] [] [] [] [] [] []]; reflexivity. Qed.

Lemma no_lower_tr_upper s : no_lower (Text.tr_upper s) = true.
Proof.
  induction s as [|c s IH]; [done |].
  unfold no_lower in *. simpl. by rewrite to_upper_not_lower, IH.
Qed.

Lemma photo_title_head filename :
  ∃ f fs,
    Text.fields "|" (extract_title (photo_basename filename)) = f :: fs
    ∧ photo_title filename = f.
Proof.
  destruct (fields_head "|" (extract_title (photo_basename filename)))
    as (f & fs & Hf & _ & _).
  exists f, fs. split; [done |].
  unfold photo_title. rewrite extract_photo_info_shape.
  unfold Text.cut. rewrite has_char_app. cbn [Text.has_char].
  rewrite Ascii.eqb_refl, orb_true_r, fields_app by apply category_no_bar.
  by rewrite Hf.
Qed.

(** X1. Whatever the file name, as long as it is one line, the
    category is one of the three categories of the site. *)
Theorem category_in_fixed_set filename :
  file_name filename = true →
  photo_category filename ∈ categories.
Proof.
  intros _. rewrite photo_category_detect. unfold categories.
  destruct (detect_category_cases (photo_basename filename))
    as [-> | [-> | ->]]; set_solver.
Qed.

Lemma category_in_fixed_set_witness :
  photo_category "-forest_walk.png" ∈ categories.
Proof. apply (category_in_fixed_set "-forest_walk.png"). reflexivity. Defined.

(** X2. The title read back by [scan_portfolio] holds no lower-case
    letter and no bar: it is the upper-cased title cut at its first bar. *)
Theorem title_upper_without_bar filename :
  no_lower (photo_title filename) = true
  ∧ Text.has_char "|" (photo_title filename) = false.
Proof.
  destruct (photo_title_head filename) as (f & fs & Hf & ->).
  destruct (fields_head "|" (extract_title (photo_basename filename)))
    as (f' & fs' & Hf' & Hbar & Hall).
  rewrite Hf in Hf'. injection Hf' as <- <-.
  split; [| done]. apply Hall.
  unfold extract_title. case_match; apply no_lower_tr_upper.
Qed.

(** X3. The classification does not look at the extension: two names
    that differ only in their (dot-free) extension are classified
    alike. *)
Theorem classification_ignores_extension pre ext1 ext2 :
  Text.has_char "." ext1 = false → Text.has_char "." ext2 = false →
  extract_photo_info (pre +:+ "." +:+ ext1)
  = extract_photo_info (pre +:+ "." +:+ ext2).
Proof.
  intros H1 H2. unfold extract_photo_info.
  change ("." +:+ ext1) with (String "." ext1).
  change ("." +:+ ext2) with (String "." ext2).
  by rewrite !photo_basename_ext.
Qed.

Lemma classification_ignores_extension_witness :
  extract_photo_info ("forest_walk" +:+ "." +:+ "png")
  = extract_photo_info ("forest_walk" +:+ "." +:+ "JPG").
Proof.
  apply (classification_ignores_extension "forest_walk" "png" "JPG");
    reflexivity.
Defined.

Lemma starts_with_first k a s :
  Text.starts_with (String a k) s = true → Text.has_char a s = true.
Proof.
  destruct s as [|b s]; simpl; [done |].
  intros [Hab _]%andb_true_iff. apply Ascii.eqb_eq in Hab as ->.
  by rewrite Ascii.eqb_refl.
Qed.

Lemma contains_first k a s :
  Text.contains (String a k) s = true → Text.has_char a s = true.
Proof.
  induction s as [|b s IH]; cbn [Text.contains].
  - by rewrite orb_false_r.
  - intros [H | H]%orb_true_iff; [by apply (starts_with_first k) |].
    simpl. by rewrite IH, orb_true_r.
Qed.

Lemma no_lower_has_char a s :
  no_lower s = true → Text.is_lower a = true → Text.has_char a s = false.
Proof.
  intros Hs Ha. induction s as [|b s IH]; [done |].
  unfold no_lower in *. simpl in *.
  apply andb_true_iff in Hs as [Hb Hs]. rewrite IH by done.
  rewrite orb_false_r. apply not_true_is_false.
  intros ->%Ascii.eqb_eq. by rewrite Ha in Hb.
Qed.

Lemma no_lower_no_keyword ks b :
  no_lower b = true →
  Forall (λ k, ∃ a k', k = String a k' ∧ Text.is_lower a = true) ks →
  Text.matches_any ks b = false.
Proof.
  intros Hb Hks. unfold Text.matches_any.
  apply not_true_is_false. intros (k & Hk & Hc)%existsb_exists.
  rewrite Forall_forall in Hks.
  destruct (Hks k) as (a & k' & -> & Ha); [by apply list_elem_of_In |].
  apply contains_first in Hc. by rewrite no_lower_has_char in Hc.
Qed.

(** X4. The keywords are matched with their case: a one-line name
    whose basename has no lower-case letter matches none of them and
    falls to the default, so it is classified as street whatever it
    spells. *)
Theorem upper_case_name_is_street filename :
  file_name filename = true →
  no_lower (photo_basename filename) = true →
  photo_category filename = "street".
Proof.
  intros _ Hb. rewrite photo_category_detect. unfold detect_category.
  rewrite !(no_lower_no_keyword _ _ Hb); [done | ..];
    unfold street_keywords, faces_keywords, nature_keywords;
    repeat (apply Forall_cons; split; [by eexists _, _ |]);
    apply Forall_nil_2.
Qed.

Lemma upper_case_name_is_street_witness :
  photo_category "FOREST_PORTRAIT.JPG" = "street".
Proof.
  apply (upper_case_name_is_street "FOREST_PORTRAIT.JPG"); reflexivity.
Defined.

Lemma rematch_no_underscore s :
  Text.has_char "_" s = false → Text.rematch_last_segment s = None.
Proof.
  induction s as [|c s IH]; simpl; [done |].
  intros [Hc Hs]%orb_false_iff. by rewrite Hc, IH.
Qed.

Lemma echo_no_dash s : Text.starts_with "-" s = false → Text.echo s = s.
Proof.
  intros Hs. unfold Text.echo.
  destruct s as [|c s]; [done |].
  destruct c as [[] [] [] [] [] [] [] []]; try reflexivity.
  discriminate.
Qed.

(** X5. A one-line name without underscore has its whole basename, in
    upper case, as title (the name not starting with a dash and holding
    no bar, the extension holding no dot). *)
Theorem plain_name_title b ext :
  file_name (b +:+ "." +:+ ext) = true →
  Text.has_char "_" b = false → Text.has_char "|" b = false →
  Text.starts_with "-" b = false → Text.has_char "." ext = false →
  photo_title (b +:+ "." +:+ ext) = Text.tr_upper b.
Proof.
  intros _ Hus Hbar Hdash Hext.
  change ("." +:+ ext) with (String "." ext).
  assert (extract_title (photo_basename (b +:+ String "." ext))
          = Text.tr_upper b) as Ht.
  { rewrite photo_basename_ext, Hdash by done. unfold extract_title.
    by rewrite rematch_no_underscore, echo_no_dash. }
  rewrite photo_title_extract; [done |].
  by rewrite Ht, has_bar_tr_upper.
Qed.

Lemma plain_name_title_witness :
  photo_title ("sunset" +:+ "." +:+ "jpg") = Text.tr_upper "sunset".
Proof. apply (plain_name_title "sunset" "jpg"); reflexivity. Defined.

(** ** The glob *)

Lemma ends_with_spec suffix s :
  Text.ends_with suffix s = true ↔ ∃ p, s = p +:+ suffix.
Proof.
  induction s as [|c s IH]; cbn [Text.ends_with].
  - rewrite orb_false_r, String.eqb_eq. split.
    + intros ->. by exists "".
    + intros [[|? p] Hp]; [done | discriminate].
  - rewrite orb_true_iff, String.eqb_eq, IH. split.
    + intros [-> | [p ->]]; [by exists "" | by exists (String c p)].
    + intros [[|a p] Hp]; [by left |].
      right. rewrite app_String in Hp. injection Hp as -> ->. by exists p.
Qed.

Lemma glob_star_spec suffix name :
  Text.glob_star suffix name = true ↔
  Text.starts_with "." name = false ∧ Text.ends_with suffix name = true.
Proof.
  destruct name as [|c name]; [by cbn; intuition |].
  destruct c as [[] [] [] [] [] [] [] []]; cbn; intuition discriminate.
Qed.

Lemma glob_suffix_spec es suffix f :
  f ∈ glob_suffix es suffix ↔
  ∃ d, d ∈ es ∧ d_name d = f ∧ Text.glob_star suffix f = true.
Proof.
  unfold glob_suffix. rewrite list_elem_of_fmap. split.
  - intros (d & -> & Hd). apply list_elem_of_filter in Hd as [Hg Hd]. eauto.
  - intros (d & Hd & <- & Hg). exists d. split; [done |].
    by apply list_elem_of_filter.
Qed.

Lemma image_files_glob e f :
  f ∈ image_files e ↔
  ∃ suffix, suffix ∈ image_suffixes
    ∧ f ∈ glob_suffix
            (filter (λ d, d_file d = true) (default [] (portfolio e))) suffix.
Proof.
  unfold image_files. cbv zeta.
  rewrite list_elem_of_In, in_concat. split.
  - intros (l & Hl & Hf). apply list_elem_of_In in Hl. apply list_elem_of_In in Hf.
    apply list_elem_of_fmap in Hl as (suffix & -> & Hs). eauto.
  - intros (suffix & Hs & Hf). eexists.
    rewrite <- !list_elem_of_In. split; [| exact Hf].
    apply list_elem_of_fmap. eauto.
Qed.

(** X6. The scan and the release step see exactly the regular files of
    the portfolio directory whose name does not begin with a dot and ends
    in one of [.jpg .jpeg .png .JPG .JPEG .PNG], spelled in exactly one of
    these ways; a missing directory has none. *)
Theorem image_files_spec e f :
  f ∈ image_files e ↔
  ∃ es, portfolio e = Some es
        ∧ {| d_name := f; d_file := true |} ∈ es
        ∧ Text.starts_with "." f = false
        ∧ ∃ suffix p, suffix ∈ image_suffixes ∧ f = p +:+ suffix.
Proof.
  rewrite image_files_glob. split.
  - intros (suffix & Hs & (d & Hd & Hn & Hg)%glob_suffix_spec).
    apply list_elem_of_filter in Hd as [Hfile Hd].
    destruct (portfolio e) as [es|]; [| by apply elem_of_nil in Hd].
    apply glob_star_spec in Hg as [Hdot [p Hp]%ends_with_spec].
    exists es. split; [done |]. destruct d as [n r]. simpl in *. subst n r.
    eauto 10.
  - intros (es & -> & Hd & Hdot & suffix & p & Hs & Hp).
    exists suffix. split; [done |]. apply glob_suffix_spec.
    eexists. split; [apply list_elem_of_filter; split; [| exact Hd]; done |].
    split; [done |]. apply glob_star_spec. split; [done |].
    apply ends_with_spec. eauto.
Qed.

Lemma ends_with_both a b s :
  Text.ends_with a s = true → Text.ends_with b s = true →
  Text.ends_with a b = true ∨ Text.ends_with b a = true.
Proof.
  induction s as [|c s IH]; cbn [Text.ends_with].
  - rewrite !orb_false_r, !String.eqb_eq. intros -> ->. left.
    by apply ends_with_spec; exists "".
  - rewrite !orb_true_iff, !String.eqb_eq.
    intros [-> | Ha] [-> | Hb]; auto.
    + left. apply ends_with_spec. by exists "".
    + right. cbn [Text.ends_with]. by rewrite Hb, orb_true_r.
    + left. cbn [Text.ends_with]. by rewrite Ha, orb_true_r.
Qed.

Lemma suffix_clash a b f :
  Text.ends_with a b = false → Text.ends_with b a = false →
  Text.glob_star a f = true → Text.glob_star b f = true → False.
Proof.
  intros Hab Hba [_ Ha]%glob_star_spec [_ Hb]%glob_star_spec.
  destruct (ends_with_both a b f Ha Hb); congruence.
Qed.

Lemma glob_suffix_NoDup es suffix :
  NoDup (d_name <$> es) → NoDup (glob_suffix es suffix).
Proof.
  intros Hes. unfold glob_suffix.
  eapply sublist_NoDup; [exact Hes |].
  apply fmap_sublist, sublist_filter.
Qed.

Lemma image_files_NoDup e es :
  portfolio e = Some es → NoDup (d_name <$> es) → NoDup (image_files e).
Proof.
  intros He Hes. unfold image_files. rewrite He. cbn [default].
  cbv zeta.
  assert (NoDup (d_name <$> filter (λ d, d_file d = true) es)) as Hreg.
  { eapply sublist_NoDup; [exact Hes |]. apply fmap_sublist, sublist_filter. }
  set (regular := filter (λ d, d_file d = true) es) in *.
  unfold image_suffixes. cbn [fmap list_fmap concat].
  repeat (apply NoDup_app; split; [by apply glob_suffix_NoDup |]; split;
          [intros f (d1 & _ & _ & H1)%glob_suffix_spec Hin;
           repeat (apply elem_of_app in Hin
                     as [(d2 & _ & _ & H2)%glob_suffix_spec | Hin];
                   [by eapply (suffix_clash _ _ f); [| | exact H1 | exact H2]
                   |]);
           by apply elem_of_nil in Hin |]).
  apply NoDup_nil_2.
Qed.

Lemma scanned_filenames e :
  (λ p : photo, p !! "filename") <$> scanned e
  = (λ f, Some (JStr f)) <$> image_files e.
Proof.
  unfold scanned. rewrite fmap_imap.
  rewrite <- (imap_const (λ f, Some (JStr f))). by apply imap_ext.
Qed.

(** X7. When the entries of the directory have distinct names, no file
    is scanned twice - the six patterns do not overlap - and the metadata
    file a scan writes carries each filename once. *)
Theorem scan_one_record_per_file e es w :
  portfolio e = Some es → NoDup (d_name <$> es) →
  NoDup (image_files e)
  ∧ ∃ l, photos_json (final (scan_portfolio e w)) = Some l
         ∧ NoDup ((λ p : photo, p !! "filename") <$> l).
Proof.
  intros He Hes.
  pose proof (image_files_NoDup e es He Hes) as Hnd.
  split; [done |]. exists (scanned e).
  rewrite scan_portfolio_ok by (by rewrite He). split; [done |].
  rewrite scanned_filenames. apply NoDup_fmap_2; [| done].
  by intros f g [= ->].
Qed.

Lemma scan_one_record_per_file_witness :
  NoDup (image_files ab_dir)
  ∧ ∃ l, photos_json (final (scan_portfolio ab_dir no_world)) = Some l
         ∧ NoDup ((λ p : photo, p !! "filename") <$> l).
Proof.
  apply (scan_one_record_per_file ab_dir (file <$> ["a.jpg"; "b.jpg"]) no_world).
  - reflexivity.
  - vm_compute. repeat constructor; intros H; repeat (inversion H; subst; clear H;
      match goal with H' : _ ∈ _ |- _ => rename H' into H | _ => idtac end).
Defined.

(** ** Further properties of the scan *)

(** X8. A scan touches nothing but the metadata file - the release and
    the upload log stay as they are - and it fails exactly when the
    portfolio directory is missing, in which case the metadata file is
    left alone too. *)
Theorem scan_portfolio_frame e w :
  release (final (scan_portfolio e w)) = release w
  ∧ uploads (final (scan_portfolio e w)) = uploads w
  ∧ (status (scan_portfolio e w) ≠ 0 ↔ portfolio e = None)
  ∧ (portfolio e = None → scan_portfolio e w = Exit 1 w).
Proof.
  destruct (portfolio e) as [es|] eqn:He.
  - rewrite scan_portfolio_ok by (by rewrite He). simpl.
    repeat split; done.
  - rewrite scan_portfolio_missing by done. simpl.
    repeat split; done.
Qed.

(** X9. A scan of a directory without image files succeeds and replaces
    the metadata file by the empty array, whatever records it held. *)
Theorem scan_empty_directory_wipes e w :
  is_Some (portfolio e) → image_files e = [] →
  scan_portfolio e w = Ret tt (write_photos [] w).
Proof.
  intros He Hfiles. rewrite scan_portfolio_ok by done.
  unfold scanned. by rewrite Hfiles.
Qed.

Lemma scan_empty_directory_wipes_witness :
  scan_portfolio (listing ["notes.txt"; "x.gif"] jan15) x_world
  = Ret tt (write_photos [] x_world).
Proof.
  apply (scan_empty_directory_wipes (listing ["notes.txt"; "x.gif"] jan15)
           x_world).
  - by eexists.
  - reflexivity.
Defined.

(** X10. In every record a scan writes, [thumbnail] and [full] are the
    same URL, the base URL of the release followed by the record's
    filename; [original_file] repeats the filename, the date is the date
    of the run, and the record has these eleven keys and no other. *)
Theorem scanned_record_shape e w :
  is_Some (portfolio e) →
  ∃ l, photos_json (final (scan_portfolio e w)) = Some l
       ∧ Forall (λ p : photo,
           ∃ f, f ∈ image_files e
             ∧ p !! "filename" = Some (JStr f)
             ∧ p !! "original_file" = Some (JStr f)
             ∧ p !! "thumbnail" = Some (JStr (BASE_URL +:+ "/" +:+ f))
             ∧ p !! "full" = Some (JStr (BASE_URL +:+ "/" +:+ f))
             ∧ p !! "date" = Some (JStr (today e))
             ∧ dom p = list_to_set
                 ["id"; "title"; "category"; "thumbnail"; "full"; "lat";
                  "lng"; "location"; "date"; "filename"; "original_file"]) l.
Proof.
  intros He. exists (scanned e). rewrite scan_portfolio_ok by done.
  split; [done |]. apply Forall_lookup.
  intros i p (f & Hf & ->)%scanned_lookup. exists f.
  split; [apply list_elem_of_lookup; eauto |].
  repeat split; done.
Qed.

Lemma scanned_record_shape_witness :
  ∃ l, photos_json (final (scan_portfolio ab_dir no_world)) = Some l
       ∧ Forall (λ p : photo,
           ∃ f, f ∈ image_files ab_dir
             ∧ p !! "filename" = Some (JStr f)
             ∧ p !! "original_file" = Some (JStr f)
             ∧ p !! "thumbnail" = Some (JStr (BASE_URL +:+ "/" +:+ f))
             ∧ p !! "full" = Some (JStr (BASE_URL +:+ "/" +:+ f))
             ∧ p !! "date" = Some (JStr (today ab_dir))
             ∧ dom p = list_to_set
                 ["id"; "title"; "category"; "thumbnail"; "full"; "lat";
                  "lng"; "location"; "date"; "filename"; "original_file"]) l.
Proof. apply (scanned_record_shape ab_dir no_world). by eexists. Defined.

(** ** Further properties of [manage_release] and [setup] *)

(** X11. [manage_release] never writes the metadata file, however it
    ends. *)
Theorem manage_release_keeps_metadata e force w :
  photos_json (final (manage_release e force w)) = photos_json w.
Proof.
  unfold_sh.
  destruct (release w), force; simpl; try done;
    destruct (decide _); simpl; try done;
    destruct (forallb _ _); done.
Qed.

(** X12. [setup --force] in a directory without image files deletes the
    existing release and then fails: the run ends with status 1, the
    release is gone, nothing was uploaded and the metadata file is as it
    was. *)
Theorem force_setup_without_images_drops_release e w assets :
  gh_ready e = true → release w = Some assets → image_files e = [] →
  main e (Setup "--force") w = Exit 1 (set_release None w).
Proof.
  intros Hgh Hr Hfiles. unfold_sh. simpl.
  by rewrite Hgh, Hr, Hfiles.
Qed.

Lemma force_setup_without_images_drops_release_witness :
  main (listing ["notes.txt"] jan15) (Setup "--force")
    (final (main x_dir (Setup "") no_world))
  = Exit 1 (set_release None (final (main x_dir (Setup "") no_world))).
Proof.
  apply (force_setup_without_images_drops_release
           (listing ["notes.txt"] jan15)
           (final (main x_dir (Setup "") no_world)) ["x.jpg"]);
    reflexivity.
Defined.

Lemma forallb_Forall {A} (p : A → bool) (l : list A) :
  forallb p l = true ↔ Forall (λ x, p x = true) l.
Proof.
  rewrite forallb_forall, Forall_forall.
  by setoid_rewrite list_elem_of_In.
Qed.

Lemma manage_release_skip e w assets :
  release w = Some assets → manage_release e false w = Ret tt w.
Proof. intros Hr. unfold_sh. by rewrite Hr. Qed.

Lemma manage_release_create e force w :
  release w = None ∨ force = true →
  manage_release e force w
  = if decide (length (image_files e) = 0)
    then Exit 1 (set_release None w)
    else if forallb (upload_ok e) (image_files e)
    then Ret tt {| photos_json := photos_json w;
                   release := Some (image_files e);
                   uploads := uploads w ++ image_files e |}
    else Exit 1 {| photos_json := photos_json w;
                   release := None;
                   uploads := uploads w ++ image_files e |}.
Proof.
  intros Hc. unfold_sh. destruct w as [pj r up]. simpl in *.
  destruct r as [assets|], force; simpl;
    try (destruct Hc; discriminate);
    destruct (decide _); try done;
    destruct (forallb _ _); done.
Qed.

Lemma main_setup_unfold e arg2 w :
  main e (Setup arg2) w
  = if gh_ready e
    then match manage_release e (String.eqb arg2 "--force") w with
         | Ret _ w1 => scan_portfolio e w1
         | Exit c w1 => Exit c w1
         end
    else Exit 1 w.
Proof.
  unfold main, check_dependencies, mbind, sh_bind, mret, sh_ret, exit.
  by destruct (gh_ready e).
Qed.

(** X13. When [setup] succeeds. It returns normally exactly when [gh] is
    ready, the portfolio directory exists and either the release is
    already there and [--force] is not given - then only the metadata
    file is rewritten - or the release is (re)created from a non-empty
    set of image files that all upload - then the release holds exactly
    these files, each handed to [gh] once. *)
Theorem setup_success_cases e arg2 w w' :
  main e (Setup arg2) w = Ret tt w' ↔
  gh_ready e = true ∧ is_Some (portfolio e)
  ∧ ((is_Some (release w) ∧ arg2 ≠ "--force"
      ∧ w' = write_photos (scanned e) w)
     ∨ ((release w = None ∨ arg2 = "--force")
        ∧ image_files e ≠ []
        ∧ Forall (λ f, upload_ok e f = true) (image_files e)
        ∧ w' = {| photos_json := Some (scanned e);
                  release := Some (image_files e);
                  uploads := uploads w ++ image_files e |})).
Proof.
  rewrite main_setup_unfold. split.
  - destruct (gh_ready e); [| done].
    destruct (release w) as [assets|] eqn:Hr;
      destruct (String.eqb arg2 "--force") eqn:Hf.
    + apply String.eqb_eq in Hf as ->.
      rewrite manage_release_create by auto.
      destruct (decide _) as [Hz | Hz]; [done |].
      destruct (forallb _ _) eqn:Hup; [| done].
      destruct (portfolio e) as [es|] eqn:He;
        [| by rewrite scan_portfolio_missing].
      rewrite scan_portfolio_ok by (by rewrite He). intros [= <-].
      split; [done |]. split; [done |]. right.
      split; [auto |]. split; [by destruct (image_files e) |].
      split; [by apply forallb_Forall | done].
    + apply String.eqb_neq in Hf.
      rewrite (manage_release_skip _ _ assets) by done.
      destruct (portfolio e) as [es|] eqn:He;
        [| by rewrite scan_portfolio_missing].
      rewrite scan_portfolio_ok by (by rewrite He). intros [= <-].
      split; [done |]. split; [done |]. left. done.
    + apply String.eqb_eq in Hf as ->.
      rewrite manage_release_create by auto.
      destruct (decide _) as [Hz | Hz]; [done |].
      destruct (forallb _ _) eqn:Hup; [| done].
      destruct (portfolio e) as [es|] eqn:He;
        [| by rewrite scan_portfolio_missing].
      rewrite scan_portfolio_ok by (by rewrite He). intros [= <-].
      split; [done |]. split; [done |]. right.
      split; [auto |]. split; [by destruct (image_files e) |].
      split; [by apply forallb_Forall | done].
    + rewrite manage_release_create by auto.
      destruct (decide _) as [Hz | Hz]; [done |].
      destruct (forallb _ _) eqn:Hup; [| done].
      destruct (portfolio e) as [es|] eqn:He;
        [| by rewrite scan_portfolio_missing].
      rewrite scan_portfolio_ok by (by rewrite He). intros [= <-].
      split; [done |]. split; [done |]. right.
      split; [auto |]. split; [by destruct (image_files e) |].
      split; [by apply forallb_Forall | done].
  - intros (-> & He & [([assets Hr] & Hnf & ->) | (Hc & Hne & Hall & ->)]).
    + apply String.eqb_neq in Hnf. rewrite Hnf.
      rewrite (manage_release_skip _ _ assets) by done.
      by rewrite scan_portfolio_ok.
    + rewrite manage_release_create
        by (destruct Hc as [? | ->]; [by left | by right]).
      destruct (decide _) as [Hz | Hz];
        [by destruct (image_files e) |].
      apply forallb_Forall in Hall. rewrite Hall.
      by rewrite scan_portfolio_ok.
Qed.

(** X14. [setup] never adds to an existing release. With the release
    in place and no [--force], an image file that is not among its assets
    is not uploaded, and still gets a record whose URLs point into the
    release. *)
Theorem setup_records_files_never_uploaded e arg2 w assets f :
  gh_ready e = true → is_Some (portfolio e) → release w = Some assets →
  arg2 ≠ "--force" → f ∈ image_files e → f ∉ assets →
  status (main e (Setup arg2) w) = 0
  ∧ release (final (main e (Setup arg2) w)) = Some assets
  ∧ uploads (final (main e (Setup arg2) w)) = uploads w
  ∧ field_of (final (main e (Setup arg2) w)) f "full"
    = Some (JStr (BASE_URL +:+ "/" +:+ f)).
Proof.
  intros Hgh He Hr Hnf Hin _.
  rewrite main_setup_unfold, Hgh.
  apply String.eqb_neq in Hnf. rewrite Hnf.
  rewrite (manage_release_skip _ _ assets) by done.
  rewrite scan_portfolio_ok by done. simpl.
  repeat split; try done.
  by destruct (field_of_scanned e w f "full" Hin) as [n ->].
Qed.

Lemma setup_records_files_never_uploaded_witness :
  status (main ab_dir (Setup "") (final (main b_dir (Setup "") no_world))) = 0
  ∧ release (final (main ab_dir (Setup "")
                      (final (main b_dir (Setup "") no_world))))
    = Some ["b.jpg"]
  ∧ uploads (final (main ab_dir (Setup "")
                      (final (main b_dir (Setup "") no_world))))
    = uploads (final (main b_dir (Setup "") no_world))
  ∧ field_of (final (main ab_dir (Setup "")
                       (final (main b_dir (Setup "") no_world))))
      "a.jpg" "full"
    = Some (JStr (BASE_URL +:+ "/" +:+ "a.jpg")).
Proof.
  apply (setup_records_files_never_uploaded ab_dir ""
           (final (main b_dir (Setup "") no_world)) ["b.jpg"] "a.jpg").
  - reflexivity.
  - by eexists.
  - reflexivity.
  - discriminate.
  - vm_compute. apply list_elem_of_here.
  - intros Hin%list_elem_of_In. simpl in Hin. intuition discriminate.
Defined.

(** ** Further properties of [update_photo] *)

Lemma filename_is_insert_ne filename key (v : json) (p : photo) :
  key ≠ "filename" →
  filename_is filename (<[key := v]> p) = filename_is filename p.
Proof. intros Hk. unfold filename_is. by rewrite lookup_insert_ne. Qed.

Lemma jq_update_twice filename field value (l : list photo) :
  jq_update filename field value (jq_update filename field value l)
  = jq_update filename field value l.
Proof.
  unfold jq_update. rewrite <- list_fmap_compose.
  apply list_fmap_ext. intros i p _. simpl.
  destruct (filename_is filename p) eqn:H1; [| by rewrite H1].
  destruct (filename_is filename (<[field := JStr value]> p));
    [by rewrite insert_insert_eq | done].
Qed.

(** X15. An update is idempotent: once [update_photo] has returned,
    running the same update again leaves everything as it is (also when
    the field is [filename] itself). *)
Theorem update_photo_idempotent filename field value w w1 :
  update_photo filename field value w = Ret tt w1 →
  update_photo filename field value w1 = Ret tt w1.
Proof.
  intros Hrun. destruct (photos_json w) as [l|] eqn:Hl.
  - rewrite (update_photo_ok _ _ _ _ l) in Hrun by done.
    injection Hrun as <-.
    rewrite (update_photo_ok _ _ _ _ (jq_update filename field value l))
      by done.
    by rewrite jq_update_twice.
  - by rewrite update_photo_missing in Hrun.
Qed.

Lemma update_photo_idempotent_witness :
  update_photo "x.jpg" "title" "Foo"
    (final (update_photo "x.jpg" "title" "Foo" x_world))
  = Ret tt (final (update_photo "x.jpg" "title" "Foo" x_world)).
Proof.
  apply (update_photo_idempotent "x.jpg" "title" "Foo" x_world
           (final (update_photo "x.jpg" "title" "Foo" x_world))).
  reflexivity.
Defined.

Lemma final_update_photo filename field value w :
  final (update_photo filename field value w)
  = match photos_json w with
    | Some l => write_photos (jq_update filename field value l) w
    | None => w
    end.
Proof.
  destruct (photos_json w) as [l|] eqn:Hl.
  - by rewrite (update_photo_ok _ _ _ _ l).
  - by rewrite update_photo_missing.
Qed.

(** X16. Updates of fields other than [filename] commute when they
    name different files or different fields: setting [lat] then [lng]
    gives the same metadata file as setting [lng] then [lat]. *)
Theorem update_photo_commute f1 k1 v1 f2 k2 v2 w :
  k1 ≠ "filename" → k2 ≠ "filename" → f1 ≠ f2 ∨ k1 ≠ k2 →
  final (update_photo f2 k2 v2 (final (update_photo f1 k1 v1 w)))
  = final (update_photo f1 k1 v1 (final (update_photo f2 k2 v2 w))).
Proof.
  intros Hk1 Hk2 Hne. rewrite !final_update_photo.
  destruct (photos_json w) as [l|] eqn:Hl; simpl; [| by rewrite Hl].
  unfold write_photos. simpl. f_equal. f_equal.
  unfold jq_update. rewrite <- !list_fmap_compose.
  apply list_fmap_ext. intros i p _. simpl.
  destruct (filename_is f1 p) eqn:H1, (filename_is f2 p) eqn:H2;
    rewrite ?filename_is_insert_ne, ?H1, ?H2 by done; try done.
  apply filename_is_spec in H1, H2.
  destruct Hne as [Hf | Hk]; [congruence |].
  by apply insert_insert_ne.
Qed.

Lemma update_photo_commute_witness :
  final (update_photo "x.jpg" "lng" "-122.4783"
           (final (update_photo "x.jpg" "lat" "37.8199" x_world)))
  = final (update_photo "x.jpg" "lat" "37.8199"
             (final (update_photo "x.jpg" "lng" "-122.4783" x_world))).
Proof.
  apply (update_photo_commute "x.jpg" "lat" "37.8199"
           "x.jpg" "lng" "-122.4783" x_world).
  - discriminate.
  - discriminate.
  - right. discriminate.
Defined.

(** X17. The last update wins: a second update of the same field of the
    same file (not the field [filename]) gives the metadata file the
    second update alone would give. *)
Theorem update_photo_last_wins filename field v1 v2 w :
  field ≠ "filename" →
  final (update_photo filename field v2
           (final (update_photo filename field v1 w)))
  = final (update_photo filename field v2 w).
Proof.
  intros Hk. rewrite !final_update_photo.
  destruct (photos_json w) as [l|] eqn:Hl; simpl; [| by rewrite Hl].
  unfold write_photos. simpl. f_equal. f_equal.
  unfold jq_update. rewrite <- list_fmap_compose.
  apply list_fmap_ext. intros i p _. simpl.
  destruct (filename_is filename p) eqn:H1;
    rewrite ?filename_is_insert_ne, ?H1 by done; [| done].
  apply insert_insert_eq.
Qed.

Lemma update_photo_last_wins_witness :
  final (update_photo "x.jpg" "title" "Bar"
           (final (update_photo "x.jpg" "title" "Foo" x_world)))
  = final (update_photo "x.jpg" "title" "Bar" x_world).
Proof.
  apply (update_photo_last_wins "x.jpg" "title" "Foo" "Bar" x_world).
  discriminate.
Defined.

Lemma list_find_jq_update g filename field value (l : list photo) :
  field ≠ "filename" →
  list_find (filename_is g) (jq_update filename field value l)
  = prod_map id
      (λ p, if filename_is filename p then <[field := JStr value]> p else p)
    <$> list_find (filename_is g) l.
Proof.
  intros Hk. unfold jq_update. rewrite list_find_fmap. f_equal.
  apply list_find_ext. intros p. simpl.
  destruct (filename_is filename p); [| done].
  by rewrite filename_is_insert_ne.
Qed.

(** X18. Reading back an update. After [update_photo] on a field other
    than [filename] of a file that has a record, the record of that file
    shows the new value under the field, as a string; every other field
    of it, and every field of the records of other files, reads as
    before. *)
Theorem update_photo_read_back filename field value w :
  field ≠ "filename" → has_record w filename →
  field_of (final (update_photo filename field value w)) filename field
  = Some (JStr value)
  ∧ ∀ g key, g ≠ filename ∨ key ≠ field →
      field_of (final (update_photo filename field value w)) g key
      = field_of w g key.
Proof.
  intros Hk [v Hv]. rewrite final_update_photo.
  unfold field_of in *.
  destruct (photos_json w) as [l|] eqn:Hl; [| done]. simpl in *.
  split.
  - rewrite list_find_jq_update by done.
    destruct (list_find (filename_is filename) l) as [[i p]|] eqn:Hf;
      [| done].
    apply list_find_Some in Hf as (_ & Hp & _).
    apply Is_true_true in Hp. simpl. rewrite Hp. apply lookup_insert_eq.
  - intros g key Hne. rewrite list_find_jq_update by done.
    destruct (list_find (filename_is g) l) as [[i p]|] eqn:Hf; [| done].
    simpl. destruct (filename_is filename p) eqn:Hp; [| done].
    apply list_find_Some in Hf as (_ & Hg & _).
    apply Is_true_true in Hg. apply filename_is_spec in Hg, Hp.
    destruct Hne as [Hne | Hne]; [congruence |].
    by apply lookup_insert_ne.
Qed.

Lemma update_photo_read_back_witness :
  field_of (final (update_photo "b.jpg" "location" "SF, CA"
                     (write_photos (scanned ab_dir) no_world)))
    "b.jpg" "location" = Some (JStr "SF, CA")
  ∧ ∀ g key, g ≠ "b.jpg" ∨ key ≠ "location" →
      field_of (final (update_photo "b.jpg" "location" "SF, CA"
                         (write_photos (scanned ab_dir) no_world))) g key
      = field_of (write_photos (scanned ab_dir) no_world) g key.
Proof.
  apply (update_photo_read_back "b.jpg" "location" "SF, CA"
           (write_photos (scanned ab_dir) no_world)).
  - discriminate.
  - eexists. vm_compute. reflexivity.
Defined.

(** ** [add_photo] *)

Lemma add_photo_unfold e is_file image_path w :
  add_photo e is_file image_path w
  = if is_file image_path
    then match release w with
         | None => Exit 1 (log_uploads [last_component image_path] w)
         | Some assets =>
             if upload_ok e (last_component image_path)
                && negb (bool_decide (last_component image_path ∈ assets))
             then scan_portfolio e
                    (set_release
                       (Some (assets ++ [last_component image_path]))
                       (log_uploads [last_component image_path] w))
             else Exit 1 (log_uploads [last_component image_path] w)
         end
    else Exit 1 w.
Proof.
  unfold add_photo, gh_release_upload, mbind, sh_bind, get, modify, exit.
  destruct (is_file image_path); [| done]. simpl.
  destruct (release w) as [assets|]; [| done].
  by destruct (upload_ok e _ && _).
Qed.

(** X19. A failed [add] never writes the metadata file. Whenever
    [add_photo] ends the script, the status is 1 and the metadata file
    is as it was; when the path is not a regular file nothing at all has
    changed, and when there is no release the run fails. *)
Theorem add_photo_failure e is_file image_path w :
  (status (add_photo e is_file image_path w) ≠ 0 →
   status (add_photo e is_file image_path w) = 1
   ∧ photos_json (final (add_photo e is_file image_path w))
     = photos_json w)
  ∧ (is_file image_path = false →
     add_photo e is_file image_path w = Exit 1 w)
  ∧ (release w = None → status (add_photo e is_file image_path w) = 1).
Proof.
  rewrite add_photo_unfold.
  destruct (is_file image_path); [| done].
  destruct (release w) as [assets|]; [| done].
  destruct (upload_ok e _ && _); [| done].
  destruct (portfolio e) as [es|] eqn:He.
  - rewrite scan_portfolio_ok by (by rewrite He). done.
  - rewrite scan_portfolio_missing by done. done.
Qed.

(** X20. A successful [add]. When the path is a regular file, the
    release exists and has no asset of that name, the upload works and
    the portfolio directory exists, [add_photo] uploads that one file,
    appends it to the release and rewrites the metadata file from the
    portfolio directory: the added file has a record only if it lies in
    that directory. *)
Theorem add_photo_success e is_file image_path w assets :
  is_file image_path = true → release w = Some assets →
  last_component image_path ∉ assets →
  upload_ok e (last_component image_path) = true →
  is_Some (portfolio e) →
  add_photo e is_file image_path w
  = Ret tt {| photos_json := Some (scanned e);
              release := Some (assets ++ [last_component image_path]);
              uploads := uploads w ++ [last_component image_path] |}
  ∧ ∀ f, has_record (final (add_photo e is_file image_path w)) f
         ↔ f ∈ image_files e.
Proof.
  intros Hfile Hr Hnew Hup He.
  rewrite add_photo_unfold, Hfile, Hr, Hup.
  rewrite bool_decide_eq_false_2 by done. simpl.
  rewrite scan_portfolio_ok by done. split; [done |].
  intros f. apply has_record_scanned.
Qed.

Lemma add_photo_success_witness :
  add_photo ab_dir (λ _, true) "portfolio/new_photo.jpg"
    (final (main ab_dir (Setup "") no_world))
  = Ret tt {| photos_json := Some (scanned ab_dir);
              release := Some (["a.jpg"; "b.jpg"]
                               ++ [last_component "portfolio/new_photo.jpg"]);
              uploads := uploads (final (main ab_dir (Setup "") no_world))
                         ++ [last_component "portfolio/new_photo.jpg"] |}
  ∧ ∀ f, has_record
           (final (add_photo ab_dir (λ _, true) "portfolio/new_photo.jpg"
                     (final (main ab_dir (Setup "") no_world)))) f
         ↔ f ∈ image_files ab_dir.
Proof.
  apply (add_photo_success ab_dir (λ _, true) "portfolio/new_photo.jpg"
           (final (main ab_dir (Setup "") no_world)) ["a.jpg"; "b.jpg"]).
  - reflexivity.
  - reflexivity.
  - intros Hin%list_elem_of_In. simpl in Hin. intuition discriminate.
  - reflexivity.
  - by eexists.
Defined.
